(** * Centrifugo node: signatures and namespace configuration

    A shallow embedding of

    - the signature helpers [generateClientToken], [checkClientToken],
      [generateApiSign], [checkApiSign], [generateChannelSign] and
      [checkChannelSign] of package [libcentrifugo], and
    - [stringInSlice], [Config.Validate] and [Config.channelOpts] of
      [lib/node/config.go],

    together with the properties of them that the design document states.

    Go strings are byte sequences: they are modelled as [string], whose
    characters ([ascii]) are exactly the 256 byte values, and a [[]byte]
    is a [list ascii].  Unsigned 32-bit words are [Z] with the wrap-around
    written out. *)

From Stdlib Require Import ZArith List Bool Ascii String Lia Permutation.
Import ListNotations.

Local Open Scope Z_scope.

(** ** Bytes *)

Definition byte := ascii.

Definition bytes := list byte.

(** The conversion [[]byte(s)]. *)
Definition bytes_of_string (s : string) : bytes := list_ascii_of_string s.

(** The conversion [string(b)]. *)
Definition string_of_bytes (b : bytes) : string := string_of_list_ascii b.

Definition byte_of_Z (z : Z) : byte := ascii_of_N (Z.to_N (z mod 256)).

Definition Z_of_byte (b : byte) : Z := Z.of_N (N_of_ascii b).

(** ** Package hash

    The interface [hash.Hash] of the standard library: a running hash
    with a state of its own.  [init] is the state a constructor such as
    [sha256.New] returns. *)

Module hash.

Record Hash : Type := {
  T : Type;
  init : T;
  Write : T -> bytes -> T;
  Sum : T -> bytes -> bytes;
  Reset : T -> T;
  Size : nat;
  BlockSize : nat
}.

End hash.

(** ** Package crypto/sha256

    The hash of the standard library, which the repository imports.  The
    running hash [digest] has the fields of the library's: the chaining
    value [h], the bytes [x] of the block that is not yet full, and the
    number [len] of bytes written so far.  [block] is the library's
    [blockGeneric] on one chunk. *)

Module sha256.

Definition Size : nat := 32.

Definition BlockSize : nat := 64.

Definition chunk : nat := 64.

(** Arithmetic on [uint32]. *)
Definition uint32 (z : Z) : Z := z mod 2 ^ 32.

Definition add32 (a b : Z) : Z := uint32 (a + b).

(** [bits.RotateLeft32(x, -n)]. *)
Definition rotr (x n : Z) : Z :=
  Z.lor (Z.shiftr x n) (uint32 (Z.shiftl x (32 - n))).

(** [^x] on [uint32]. *)
Definition not32 (x : Z) : Z := Z.lxor x 0xFFFFFFFF.

Definition init : list Z :=
  [ 0x6A09E667; 0xBB67AE85; 0x3C6EF372; 0xA54FF53A;
    0x510E527F; 0x9B05688C; 0x1F83D9AB; 0x5BE0CD19 ].

Definition _K : list Z :=
  [ 0x428A2F98; 0x71374491; 0xB5C0FBCF; 0xE9B5DBA5;
    0x3956C25B; 0x59F111F1; 0x923F82A4; 0xAB1C5ED5;
    0xD807AA98; 0x12835B01; 0x243185BE; 0x550C7DC3;
    0x72BE5D74; 0x80DEB1FE; 0x9BDC06A7; 0xC19BF174;
    0xE49B69C1; 0xEFBE4786; 0x0FC19DC6; 0x240CA1CC;
    0x2DE92C6F; 0x4A7484AA; 0x5CB0A9DC; 0x76F988DA;
    0x983E5152; 0xA831C66D; 0xB00327C8; 0xBF597FC7;
    0xC6E00BF3; 0xD5A79147; 0x06CA6351; 0x14292967;
    0x27B70A85; 0x2E1B2138; 0x4D2C6DFC; 0x53380D13;
    0x650A7354; 0x766A0ABB; 0x81C2C92E; 0x92722C85;
    0xA2BFE8A1; 0xA81A664B; 0xC24B8B70; 0xC76C51A3;
    0xD192E819; 0xD6990624; 0xF40E3585; 0x106AA070;
    0x19A4C116; 0x1E376C08; 0x2748774C; 0x34B0BCB5;
    0x391C0CB3; 0x4ED8AA4A; 0x5B9CCA4F; 0x682E6FF3;
    0x748F82EE; 0x78A5636F; 0x84C87814; 0x8CC70208;
    0x90BEFFFA; 0xA4506CEB; 0xBEF9A3F7; 0xC67178F2 ].

(** The chaining value: the eight words [h[0]] to [h[7]]. *)
Record state : Type := State {
  ha : Z; hb : Z; hc : Z; hd : Z; he : Z; hf : Z; hg : Z; hh : Z
}.

Definition state_of_list (l : list Z) : state :=
  State (nth 0 l 0) (nth 1 l 0) (nth 2 l 0) (nth 3 l 0)
        (nth 4 l 0) (nth 5 l 0) (nth 6 l 0) (nth 7 l 0).

(** The words [w[0]] to [w[15]] of a chunk, big endian. *)
Fixpoint words_of_bytes (p : bytes) : list Z :=
  match p with
  | b0 :: b1 :: b2 :: b3 :: p' =>
      Z.lor (Z.lor (Z.lor (Z.shiftl (Z_of_byte b0) 24)
                          (Z.shiftl (Z_of_byte b1) 16))
                   (Z.shiftl (Z_of_byte b2) 8))
            (Z_of_byte b3)
      :: words_of_bytes p'
  | _ => []
  end.

(** The message schedule, most recent word first: with [i] words in
    [rw], the head is [w[i-1]], so that [w[i-2]], [w[i-7]], [w[i-15]]
    and [w[i-16]] are at positions 1, 6, 14 and 15. *)
Definition next_word (rw : list Z) : Z :=
  let v1 := nth 1 rw 0 in
  let t1 := Z.lxor (Z.lxor (rotr v1 17) (rotr v1 19)) (Z.shiftr v1 10) in
  let v2 := nth 14 rw 0 in
  let t2 := Z.lxor (Z.lxor (rotr v2 7) (rotr v2 18)) (Z.shiftr v2 3) in
  add32 (add32 (add32 t1 (nth 6 rw 0)) t2) (nth 15 rw 0).

Fixpoint extend (n : nat) (rw : list Z) : list Z :=
  match n with
  | O => rw
  | S n' => extend n' (next_word rw :: rw)
  end.

Definition schedule (p : bytes) : list Z :=
  rev (extend 48 (rev (words_of_bytes p))).

(** One of the 64 rounds, on the constant [k = _K[i]] and the word
    [w = w[i]]. *)
Definition round (s : state) (kw : Z * Z) : state :=
  let '(State a b c d e f g h) := s in
  let '(k, w) := kw in
  let t1 :=
    add32 (add32 (add32 (add32 h
      (Z.lxor (Z.lxor (rotr e 6) (rotr e 11)) (rotr e 25)))
      (Z.lxor (Z.land e f) (Z.land (not32 e) g))) k) w in
  let t2 :=
    add32 (Z.lxor (Z.lxor (rotr a 2) (rotr a 13)) (rotr a 22))
          (Z.lxor (Z.lxor (Z.land a b) (Z.land a c)) (Z.land b c)) in
  State (add32 t1 t2) a b c (add32 d t1) e f g.

(** [block] on one chunk of 64 bytes. *)
Definition block (s : state) (p : bytes) : state :=
  let '(State a b c d e f g h) :=
    fold_left round (combine _K (schedule p)) s in
  State (add32 (ha s) a) (add32 (hb s) b) (add32 (hc s) c)
        (add32 (hd s) d) (add32 (he s) e) (add32 (hf s) f)
        (add32 (hg s) g) (add32 (hh s) h).

Record digest : Type := Digest {
  h : state;
  x : bytes;
  len : Z
}.

(** The digest after [Reset]. *)
Definition reset : digest := Digest (state_of_list init) [] 0.

(** [Write] takes the bytes in order; each one goes to the pending
    block, which is compressed as soon as it holds a whole chunk. *)
Definition write_byte (d : digest) (b : byte) : digest :=
  let x' := x d ++ [b] in
  if Nat.eqb (List.length x') chunk
  then Digest (block (h d) x') [] (len d + 1)
  else Digest (h d) x' (len d + 1).

Definition Write (d : digest) (p : bytes) : digest :=
  fold_left write_byte p d.

(** Big-endian encodings of a 32-bit and of a 64-bit word. *)
Definition be32 (w : Z) : bytes :=
  [ byte_of_Z (Z.shiftr w 24); byte_of_Z (Z.shiftr w 16);
    byte_of_Z (Z.shiftr w 8); byte_of_Z w ].

Definition be64 (w : Z) : bytes :=
  be32 (Z.shiftr w 32) ++ be32 w.

(** The padding of [checkSum]: the byte 0x80, then zeros up to 56
    bytes mod 64, then the length in bits. *)
Definition padding (len : Z) : bytes :=
  let r := len mod 64 in
  let n := if r <? 56 then 56 - r else 64 + 56 - r in
  byte_of_Z 0x80 :: repeat (byte_of_Z 0) (Z.to_nat (n - 1))
    ++ be64 (Z.shiftl len 3 mod 2 ^ 64).

Definition state_bytes (s : state) : bytes :=
  be32 (ha s) ++ be32 (hb s) ++ be32 (hc s) ++ be32 (hd s)
    ++ be32 (he s) ++ be32 (hf s) ++ be32 (hg s) ++ be32 (hh s).

Definition checkSum (d : digest) : bytes :=
  state_bytes (h (Write d (padding (len d)))).

(** [Sum(in)] appends the hash of what was written to [in]; the
    digest itself is left as it was. *)
Definition Sum (d : digest) (b : bytes) : bytes := b ++ checkSum d.

(** [New] returns a new [hash.Hash] computing the SHA-256 checksum. *)
Definition New : hash.Hash := {|
  hash.T := digest;
  hash.init := reset;
  hash.Write := Write;
  hash.Sum := Sum;
  hash.Reset := fun _ => reset;
  hash.Size := Size;
  hash.BlockSize := BlockSize
|}.

End sha256.

(** ** Package crypto/hmac

    The keyed hash of the standard library.  [New] hashes a key that is
    longer than a block, pads it with zeros to a block, and starts the
    inner hash on the key xor 0x36; [Write] feeds the inner hash; [Sum]
    hashes the key xor 0x5c followed by the inner sum. *)

Module hmac.

Record HMAC (H : hash.Hash) : Type := Build {
  opad : bytes;
  ipad : bytes;
  outer : hash.T H;
  inner : hash.T H
}.

Arguments Build {H} _ _ _ _.
Arguments opad {H} _.
Arguments ipad {H} _.
Arguments outer {H} _.
Arguments inner {H} _.

Definition xor_byte (c : Z) (b : byte) : byte :=
  byte_of_Z (Z.lxor (Z_of_byte b) c).

(** [copy(dst, key)] into a fresh [dst] of [n] zero bytes. *)
Definition copy_into_zeros (n : nat) (key : bytes) : bytes :=
  firstn n (key ++ repeat (byte_of_Z 0) n).

Definition New (H : hash.Hash) (key : bytes) : HMAC H :=
  let blocksize := hash.BlockSize H in
  let key :=
    if Nat.ltb blocksize (List.length key)
    then hash.Sum H (hash.Write H (hash.init H) key) []
    else key in
  let ipad := map (xor_byte 0x36) (copy_into_zeros blocksize key) in
  let opad := map (xor_byte 0x5c) (copy_into_zeros blocksize key) in
  Build opad ipad (hash.init H) (hash.Write H (hash.init H) ipad).

Definition Write {H : hash.Hash} (hm : HMAC H) (p : bytes) : HMAC H :=
  Build (opad hm) (ipad hm) (outer hm) (hash.Write H (inner hm) p).

Definition Sum {H : hash.Hash} (hm : HMAC H) (b : bytes) : bytes :=
  let origLen := List.length b in
  let b' := hash.Sum H (inner hm) b in
  let outer := hash.Write H (hash.Reset H (outer hm)) (opad hm) in
  let outer := hash.Write H outer (skipn origLen b') in
  hash.Sum H outer (firstn origLen b').

End hmac.

(** ** Package fmt

    [fmt.Sprintf("%02x", b)] on a byte slice: two lowercase hexadecimal
    digits for each byte.  The width 2 of the verb applies to the whole
    rendering, which it pads on the left with zeros; only the rendering
    of an empty slice is shorter than 2. *)

Module fmt.

Definition ldigits : string := "0123456789abcdef".

Definition digit (n : Z) : ascii :=
  match String.get (Z.to_nat n) ldigits with
  | Some c => c
  | None => "0"%char
  end.

Fixpoint fmtSbx (b : bytes) : string :=
  match b with
  | [] => EmptyString
  | c :: b' =>
      String (digit (Z.shiftr (Z_of_byte c) 4))
        (String (digit (Z.land (Z_of_byte c) 0xF)) (fmtSbx b'))
  end.

Fixpoint writePadding (n : nat) : string :=
  match n with
  | O => EmptyString
  | S n' => String "0"%char (writePadding n')
  end.

Definition Sprintf_02x (b : bytes) : string :=
  let s := fmtSbx b in
  (writePadding (2 - String.length s) ++ s)%string.

End fmt.

(** ** Package errors

    An [error] is [nil] or carries a text. *)

Definition error : Type := option string.

Module errors.

Definition New (text : string) : error := Some text.

End errors.


(** ** Package regexp

    The fragment of the regular expressions of the standard library
    that the configuration uses: character classes given by ranges,
    concatenation, alternation, repetition, and the anchors [^] and [$]
    at the two ends of a pattern.  Matching is by derivatives.  The
    library matches runes of UTF-8 text where this model matches bytes;
    with classes of ASCII ranges only, as here, a byte of 0x80 or more
    is in no class and a rune outside ASCII is in none either. *)

Module regexp.

Inductive Regexp : Type :=
| NoMatch : Regexp
| EmptyMatch : Regexp
| CharClass : list (ascii * ascii) -> Regexp
| Concat : Regexp -> Regexp -> Regexp
| Alternate : Regexp -> Regexp -> Regexp
| Star : Regexp -> Regexp.

(** [r{min,}]. *)
Fixpoint Repeat (min : nat) (r : Regexp) : Regexp :=
  match min with
  | O => Star r
  | S n => Concat r (Repeat n r)
  end.

Definition AnyChar : Regexp := CharClass [("000"%char, "255"%char)].

Definition in_range (c : ascii) (lohi : ascii * ascii) : bool :=
  (N_of_ascii (fst lohi) <=? N_of_ascii c)%N
  && (N_of_ascii c <=? N_of_ascii (snd lohi))%N.

Definition in_class (ranges : list (ascii * ascii)) (c : ascii) : bool :=
  existsb (in_range c) ranges.

Fixpoint nullable (r : Regexp) : bool :=
  match r with
  | NoMatch => false
  | EmptyMatch => true
  | CharClass _ => false
  | Concat r1 r2 => nullable r1 && nullable r2
  | Alternate r1 r2 => nullable r1 || nullable r2
  | Star _ => true
  end.

Fixpoint deriv (r : Regexp) (c : ascii) : Regexp :=
  match r with
  | NoMatch => NoMatch
  | EmptyMatch => NoMatch
  | CharClass ranges => if in_class ranges c then EmptyMatch else NoMatch
  | Concat r1 r2 =>
      if nullable r1
      then Alternate (Concat (deriv r1 c) r2) (deriv r2 c)
      else Concat (deriv r1 c) r2
  | Alternate r1 r2 => Alternate (deriv r1 c) (deriv r2 c)
  | Star r1 => Concat (deriv r1 c) (Star r1)
  end.

(** The words of an expression. *)
Inductive lang : Regexp -> list ascii -> Prop :=
| lang_EmptyMatch : lang EmptyMatch []
| lang_CharClass ranges c :
    in_class ranges c = true -> lang (CharClass ranges) [c]
| lang_Concat r1 r2 s1 s2 :
    lang r1 s1 -> lang r2 s2 -> lang (Concat r1 r2) (s1 ++ s2)
| lang_Alternate_l r1 r2 s : lang r1 s -> lang (Alternate r1 r2) s
| lang_Alternate_r r1 r2 s : lang r2 s -> lang (Alternate r1 r2) s
| lang_Star_nil r : lang (Star r) []
| lang_Star_app r s1 s2 :
    lang r s1 -> lang (Star r) s2 -> lang (Star r) (s1 ++ s2).

(** Whether the whole of [s] matches [r]. *)
Definition full_match (r : Regexp) (s : list ascii) : bool :=
  nullable (fold_left deriv s r).

(** A pattern: a body with or without [^] before and [$] after. *)
Record Pattern : Type := {
  begin_text : bool;
  body : Regexp;
  end_text : bool
}.

(** The expression that the whole text has to match for the text to
    contain a match of the pattern. *)
Definition search (p : Pattern) : Regexp :=
  Concat (if begin_text p then EmptyMatch else Star AnyChar)
    (Concat (body p) (if end_text p then EmptyMatch else Star AnyChar)).

(** [MatchString] reports whether [s] contains any match of the
    pattern; its error is for a pattern that does not parse, and a
    [Pattern] is a parsed one. *)
Definition MatchString (pattern : Pattern) (s : string) : bool * error :=
  (full_match (search pattern) (list_ascii_of_string s), None).

End regexp.

(** ** lib/node/config.go *)

Section Node.

(** The record [channel.Options] of package [channel], which is not
    part of these sources: the configuration stores and returns its
    values and never looks inside.  [Options_zero] is [channel.Options{}]. *)
Context {channel_Options : Type}.
Variable Options_zero : channel_Options.

(** Modelled from the spec: the record [channel.Namespace] of package
    [channel], which is not part of these sources.  Each entry is a
    (name, policy) pair; the code reads the fields [Name], a string,
    and [Options]. *)
Record Namespace : Type := {
  Namespace_Name : string;
  Namespace_Options : channel_Options
}.

(** A [time.Duration] is a number of nanoseconds. *)
Definition Duration : Type := Z.

Definition Second : Duration := 1000000000.

Record Config : Type := {
  Name : string;
  Secret : string;
  Options : channel_Options;
  Namespaces : list Namespace;
  NodePingInterval : Duration;
  NodeInfoCleanInterval : Duration;
  NodeInfoMaxDelay : Duration;
  NodeMetricsInterval : Duration;
  PresencePingInterval : Duration;
  PresenceExpireInterval : Duration;
  ClientPingInterval : Duration;
  ClientInsecure : bool;
  ClientExpire : bool;
  ClientExpiredCloseDelay : Duration;
  ClientStaleCloseDelay : Duration;
  ClientMessageWriteTimeout : Duration;
  ClientRequestMaxSize : Z;
  ClientQueueMaxSize : Z;
  ClientChannelLimit : Z;
  UserConnectionLimit : Z;
  ChannelPrivatePrefix : string;
  ChannelNamespaceBoundary : string;
  ChannelUserBoundary : string;
  ChannelUserSeparator : string;
  ChannelClientBoundary : string;
  ChannelMaxLength : Z
}.

Fixpoint stringInSlice (a : string) (list : list string) : bool :=
  match list with
  | [] => false
  | b :: list' => if String.eqb b a then true else stringInSlice a list'
  end.

Definition errPrefix : string := "config error: ".

(** The pattern ["^[-a-zA-Z0-9_]{2,}$"]. *)
Definition pattern : regexp.Pattern := {|
  regexp.begin_text := true;
  regexp.body :=
    regexp.Repeat 2
      (regexp.CharClass
         [ ("-", "-"); ("a", "z"); ("A", "Z"); ("0", "9"); ("_", "_") ]%char);
  regexp.end_text := true
|}.

(** The loop of [Validate] over [c.Namespaces], with the names seen
    so far in [nss]. *)
Fixpoint Validate_loop (namespaces : list Namespace) (nss : list string)
  : error :=
  match namespaces with
  | [] => None
  | n :: namespaces' =>
      let name := Namespace_Name n in
      let '(match_, _) := regexp.MatchString pattern name in
      if negb match_
      then errors.New (errPrefix ++ "wrong namespace name – " ++ name)
      else if stringInSlice name nss
      then errors.New (errPrefix ++ "namespace name must be unique")
      else Validate_loop namespaces' (nss ++ [name])
  end.

(** [Validate] validates config and returns error if problems found. *)
Definition Validate (c : Config) : error :=
  Validate_loop (Namespaces c) [].

Fixpoint channelOpts_loop (namespaces : list Namespace)
  (namespaceName : string) : channel_Options * bool :=
  match namespaces with
  | [] => (Options_zero, false)
  | n :: namespaces' =>
      if String.eqb (Namespace_Name n) namespaceName
      then (Namespace_Options n, true)
      else channelOpts_loop namespaces' namespaceName
  end.

(** [channelOpts] searches for channel options for specified
    namespace key. *)
Definition channelOpts (c : Config) (namespaceName : string)
  : channel_Options * bool :=
  if String.eqb namespaceName ""
  then (Options c, true)
  else channelOpts_loop (Namespaces c) namespaceName.

Definition DefaultName : string := "centrifugo".

Definition DefaultNodePingInterval : Z := 3.

(** [DefaultConfig] is [Config] initialized with default values for
    all fields. *)
Definition DefaultConfig : Config := {|
  Name := DefaultName;
  Secret := "";
  Options := Options_zero;
  Namespaces := [];
  NodePingInterval := DefaultNodePingInterval * Second;
  NodeInfoCleanInterval := DefaultNodePingInterval * 3 * Second;
  NodeInfoMaxDelay := DefaultNodePingInterval * 2 * Second + 1 * Second;
  NodeMetricsInterval := 60 * Second;
  PresencePingInterval := 25 * Second;
  PresenceExpireInterval := 60 * Second;
  ClientPingInterval := 25 * Second;
  ClientInsecure := false;
  ClientExpire := false;
  ClientExpiredCloseDelay := 25 * Second;
  ClientStaleCloseDelay := 25 * Second;
  ClientMessageWriteTimeout := 0;
  ClientRequestMaxSize := 65536;
  ClientQueueMaxSize := 10485760;
  ClientChannelLimit := 128;
  UserConnectionLimit := 0;
  ChannelPrivatePrefix := "$";
  ChannelNamespaceBoundary := ":";
  ChannelUserBoundary := "#";
  ChannelUserSeparator := ",";
  ChannelClientBoundary := "&";
  ChannelMaxLength := 255
|}.

(** The configuration that a loader makes of [c] by setting the
    options of the node and the namespaces. *)
Definition with_Namespaces (c : Config) (options : channel_Options)
  (namespaces : list Namespace) : Config := {|
  Name := Name c;
  Secret := Secret c;
  Options := options;
  Namespaces := namespaces;
  NodePingInterval := NodePingInterval c;
  NodeInfoCleanInterval := NodeInfoCleanInterval c;
  NodeInfoMaxDelay := NodeInfoMaxDelay c;
  NodeMetricsInterval := NodeMetricsInterval c;
  PresencePingInterval := PresencePingInterval c;
  PresenceExpireInterval := PresenceExpireInterval c;
  ClientPingInterval := ClientPingInterval c;
  ClientInsecure := ClientInsecure c;
  ClientExpire := ClientExpire c;
  ClientExpiredCloseDelay := ClientExpiredCloseDelay c;
  ClientStaleCloseDelay := ClientStaleCloseDelay c;
  ClientMessageWriteTimeout := ClientMessageWriteTimeout c;
  ClientRequestMaxSize := ClientRequestMaxSize c;
  ClientQueueMaxSize := ClientQueueMaxSize c;
  ClientChannelLimit := ClientChannelLimit c;
  UserConnectionLimit := UserConnectionLimit c;
  ChannelPrivatePrefix := ChannelPrivatePrefix c;
  ChannelNamespaceBoundary := ChannelNamespaceBoundary c;
  ChannelUserBoundary := ChannelUserBoundary c;
  ChannelUserSeparator := ChannelUserSeparator c;
  ChannelClientBoundary := ChannelClientBoundary c;
  ChannelMaxLength := ChannelMaxLength c
|}.

End Node.

Arguments Namespace : clear implicits.
Arguments Config : clear implicits.

(** ** Package libcentrifugo: signatures *)

(** [generateClientToken] generates client token based on project
    secret key and provided connection parameters such as user ID,
    timestamp and info JSON string. *)
Definition generateClientToken
  (secretKey projectKey user timestamp info : string) : string :=
  let token := hmac.New sha256.New (bytes_of_string secretKey) in
  let token := hmac.Write token (bytes_of_string projectKey) in
  let token := hmac.Write token (bytes_of_string user) in
  let token := hmac.Write token (bytes_of_string timestamp) in
  let info := if String.eqb info "" then "{}"%string else info in
  let token := hmac.Write token (bytes_of_string info) in
  fmt.Sprintf_02x (hmac.Sum token []).

(** [checkClientToken] validates correctness of provided (by client
    connection) token comparing it with generated one. *)
Definition checkClientToken
  (secretKey projectKey user timestamp info providedToken : string) : bool :=
  let token := generateClientToken secretKey projectKey user timestamp info in
  String.eqb token providedToken.

(** [generateApiSign] generates sign which is used to sign HTTP API
    requests. *)
Definition generateApiSign (secretKey projectKey encodedData : string)
  : string :=
  let sign := hmac.New sha256.New (bytes_of_string secretKey) in
  let sign := hmac.Write sign (bytes_of_string projectKey) in
  let sign := hmac.Write sign (bytes_of_string encodedData) in
  fmt.Sprintf_02x (hmac.Sum sign []).

(** [checkApiSign] validates correctness of provided (in HTTP API
    request) sign comparing it with generated one. *)
Definition checkApiSign
  (secretKey projectKey encodedData providedSign : string) : bool :=
  let sign := generateApiSign secretKey projectKey encodedData in
  String.eqb sign providedSign.

(** [generateChannelSign] generates sign which is used to prove
    permission of client to subscribe on private channel. *)
Definition generateChannelSign
  (secretKey client channel channelData : string) : string :=
  let sign := hmac.New sha256.New (bytes_of_string secretKey) in
  let sign := hmac.Write sign (bytes_of_string client) in
  let sign := hmac.Write sign (bytes_of_string channel) in
  let sign := hmac.Write sign (bytes_of_string channelData) in
  fmt.Sprintf_02x (hmac.Sum sign []).

(** [checkChannelSign] validates a correctness of provided (in
    subscribe client command) sign comparing it with generated one. *)
Definition checkChannelSign
  (secretKey client channel channelData providedSign : string) : bool :=
  let sign := generateChannelSign secretKey client channel channelData in
  String.eqb sign providedSign.

(** *** The bytes that are signed

    The bytes that the [Write] calls of a generate function hand to the
    keyed hash, one call after the other.  [generateClientToken_signs],
    [generateApiSign_signs] and [generateChannelSign_signs] below show
    that each generate function is the keyed hash of these bytes. *)

Definition clientToken_stream (projectKey user timestamp info : string)
  : bytes :=
  bytes_of_string projectKey ++ bytes_of_string user
    ++ bytes_of_string timestamp
    ++ bytes_of_string (if String.eqb info "" then "{}"%string else info).

Definition apiSign_stream (projectKey encodedData : string) : bytes :=
  bytes_of_string projectKey ++ bytes_of_string encodedData.

Definition channelSign_stream (client channel channelData : string) : bytes :=
  bytes_of_string client ++ bytes_of_string channel
    ++ bytes_of_string channelData.

(** The keyed hash of a message that is written in one piece. *)
Definition sign_of (secretKey : string) (message : bytes) : string :=
  fmt.Sprintf_02x
    (hmac.Sum (hmac.Write (hmac.New sha256.New (bytes_of_string secretKey))
                 message) []).

(** *** The design document's words *)

(** The pattern [^[A-Za-z0-9_-]{2,}$] of a namespace name. *)
Definition NamespaceName_pattern : regexp.Pattern := {|
  regexp.begin_text := true;
  regexp.body :=
    regexp.Repeat 2
      (regexp.CharClass
         [ ("A", "Z"); ("a", "z"); ("0", "9"); ("_", "_"); ("-", "-") ]%char);
  regexp.end_text := true
|}.

(** A name matches the pattern of a namespace name. *)
Definition NamespaceName_ok (name : string) : bool :=
  fst (regexp.MatchString NamespaceName_pattern name).

(** The names that a list of namespaces declares, in order. *)
Definition names {O : Type} (namespaces : list (Namespace O)) : list string :=
  map Namespace_Name namespaces.

(** *** Configurations to try the functions on

    Numbers stand for the options: 0 for [channel.Options{}], 7 for the
    options of the node. *)

Definition config_of (namespaces : list (Namespace nat)) : Config nat :=
  with_Namespaces (DefaultConfig 0%nat) 7%nat namespaces.

Definition namespace (name : string) (options : nat) : Namespace nat :=
  {| Namespace_Name := name; Namespace_Options := options |}.

(** A letter, a digit, [_] or [-]. *)
Definition is_name_byte (ch : ascii) : bool :=
  let n := N_of_ascii ch in
  ((65 <=? n) && (n <=? 90) || (97 <=? n) && (n <=? 122)
   || (48 <=? n) && (n <=? 57) || (n =? 95) || (n =? 45))%N.

(** A lowercase hexadecimal digit. *)
Definition is_lower_hex (c : ascii) : bool :=
  let n := N_of_ascii c in
  ((48 <=? n) && (n <=? 57) || (97 <=? n) && (n <=? 102))%N.

(** * Properties *)

(** ** The hash packages *)

(** The model computes the published digests. *)
Example sha256_abc :
  fmt.Sprintf_02x
    (sha256.Sum (sha256.Write sha256.reset (bytes_of_string "abc")) [])
  = "ba7816bf8f01cfea414140de5dae2223b00361a396177a9cb410ff61f20015ad"%string.
Proof. vm_compute. reflexivity. Qed.

Example sha256_two_blocks :
  fmt.Sprintf_02x
    (sha256.Sum
       (sha256.Write sha256.reset
          (bytes_of_string
             "abcdbcdecdefdefgefghfghighijhijkijkljklmklmnlmnomnopnopq")) [])
  = "248d6a61d20638b8e5c026930c3e6039a33ce45964ff2167f6ecedd419db06c1"%string.
Proof. vm_compute. reflexivity. Qed.

Example hmac_sha256_short_key :
  sign_of "Jefe" (bytes_of_string "what do ya want for nothing?")
  = "5bdcc146bf60754e6a042426089575c75a003f089d2739839dec58b964ec3843"%string.
Proof. vm_compute. reflexivity. Qed.

Example hmac_sha256_long_key :
  fmt.Sprintf_02x
    (hmac.Sum
       (hmac.Write (hmac.New sha256.New (repeat (byte_of_Z 0xaa) 131))
          (bytes_of_string
             "Test Using Larger Than Block-Size Key - Hash Key First")) [])
  = "60e431591ee0b67f0d8a26aacbf5b77f8e0bc6213728c5140546040f0ee37f54"%string.
Proof. vm_compute. reflexivity. Qed.

Module sha256_facts.

(** Writing in two pieces is writing the concatenation. *)
Lemma sha256_Write_app (d : sha256.digest) (p q : bytes) :
  sha256.Write (sha256.Write d p) q = sha256.Write d (p ++ q).
Proof. unfold sha256.Write. now rewrite fold_left_app. Qed.

Lemma length_be32 (w : Z) : List.length (sha256.be32 w) = 4%nat.
Proof. reflexivity. Qed.

Lemma length_state_bytes (s : sha256.state) :
  List.length (sha256.state_bytes s) = sha256.Size.
Proof.
  unfold sha256.state_bytes.
  repeat rewrite length_app. repeat rewrite length_be32. reflexivity.
Qed.

Lemma length_checkSum (d : sha256.digest) :
  List.length (sha256.checkSum d) = sha256.Size.
Proof. apply length_state_bytes. Qed.

Lemma length_Sum (d : sha256.digest) (b : bytes) :
  List.length (sha256.Sum d b) = (List.length b + sha256.Size)%nat.
Proof. unfold sha256.Sum. now rewrite length_app, length_checkSum. Qed.

End sha256_facts.

Module hmac_facts.

Lemma hmac_Write_app (hm : hmac.HMAC sha256.New) (p q : bytes) :
  hmac.Write (hmac.Write hm p) q = hmac.Write hm (p ++ q).
Proof.
  unfold hmac.Write. cbn [hmac.opad hmac.ipad hmac.outer hmac.inner].
  f_equal. apply sha256_facts.sha256_Write_app.
Qed.

Lemma hmac_Write_nil (hm : hmac.HMAC sha256.New) : hmac.Write hm [] = hm.
Proof. now destruct hm. Qed.

(** The sum of an HMAC on SHA-256 has the 32 bytes of the digest. *)
Lemma length_Sum_nil (hm : hmac.HMAC sha256.New) :
  List.length (hmac.Sum hm []) = sha256.Size.
Proof.
  unfold hmac.Sum.
  change (hash.Sum sha256.New) with sha256.Sum.
  now rewrite sha256_facts.length_Sum.
Qed.

End hmac_facts.

Module fmt_facts.

Lemma length_fmtSbx (b : bytes) :
  String.length (fmt.fmtSbx b) = (2 * List.length b)%nat.
Proof.
  induction b as [|c b IH]; cbn [fmt.fmtSbx String.length List.length]; lia.
Qed.

(** Without padding as soon as there is a byte to render. *)
Lemma Sprintf_02x_fmtSbx (b : bytes) :
  b <> [] -> fmt.Sprintf_02x b = fmt.fmtSbx b.
Proof.
  intros Hb. unfold fmt.Sprintf_02x.
  replace (2 - String.length (fmt.fmtSbx b))%nat with 0%nat; [reflexivity|].
  rewrite length_fmtSbx. destruct b; [congruence|cbn [List.length]; lia].
Qed.

Lemma digit_lower_hex (c : byte) :
  is_lower_hex (fmt.digit (Z.shiftr (Z_of_byte c) 4)) = true
  /\ is_lower_hex (fmt.digit (Z.land (Z_of_byte c) 0xF)) = true.
Proof.
  destruct c as [[] [] [] [] [] [] [] []]; split; vm_compute; reflexivity.
Qed.

Lemma fmtSbx_lower_hex (b : bytes) :
  forallb is_lower_hex (list_ascii_of_string (fmt.fmtSbx b)) = true.
Proof.
  induction b as [|c b IH]; [reflexivity|].
  cbn [fmt.fmtSbx list_ascii_of_string forallb].
  destruct (digit_lower_hex c) as [-> ->]. exact IH.
Qed.

End fmt_facts.

(** ** Signatures *)

Section Signatures.

Variables secretKey projectKey user timestamp info : string.
Variables encodedData client channel channelData : string.

Lemma generateClientToken_signs :
  generateClientToken secretKey projectKey user timestamp info
  = sign_of secretKey (clientToken_stream projectKey user timestamp info).
Proof.
  unfold generateClientToken, sign_of, clientToken_stream.
  now rewrite !hmac_facts.hmac_Write_app, <- ?app_assoc.
Qed.

Lemma generateApiSign_signs :
  generateApiSign secretKey projectKey encodedData
  = sign_of secretKey (apiSign_stream projectKey encodedData).
Proof.
  unfold generateApiSign, sign_of, apiSign_stream.
  now rewrite !hmac_facts.hmac_Write_app.
Qed.

Lemma generateChannelSign_signs :
  generateChannelSign secretKey client channel channelData
  = sign_of secretKey (channelSign_stream client channel channelData).
Proof.
  unfold generateChannelSign, sign_of, channelSign_stream.
  now rewrite !hmac_facts.hmac_Write_app, <- ?app_assoc.
Qed.

End Signatures.

(** A signature is the rendering of the 32 bytes of a digest. *)
Lemma sign_of_fmtSbx (secretKey : string) (message : bytes) :
  exists digest : bytes,
    List.length digest = sha256.Size
    /\ sign_of secretKey message = fmt.fmtSbx digest.
Proof.
  unfold sign_of.
  set (hm := hmac.Write _ _).
  exists (hmac.Sum hm []). split.
  - apply hmac_facts.length_Sum_nil.
  - apply fmt_facts.Sprintf_02x_fmtSbx.
    intros E. pose proof (hmac_facts.length_Sum_nil hm) as L.
    rewrite E in L. discriminate L.
Qed.

Lemma sign_of_shape (secretKey : string) (message : bytes) :
  String.length (sign_of secretKey message) = (2 * sha256.Size)%nat
  /\ forallb is_lower_hex
       (list_ascii_of_string (sign_of secretKey message)) = true.
Proof.
  destruct (sign_of_fmtSbx secretKey message) as (digest & L & ->).
  split.
  - now rewrite fmt_facts.length_fmtSbx, L.
  - apply fmt_facts.fmtSbx_lower_hex.
Qed.

(** C1: verifying a freshly generated signature with the same fields
    succeeds, for the connection token, the API sign and the channel
    sign. *)
Theorem check_generated
  (secretKey projectKey user timestamp info : string)
  (encodedData client channel channelData : string) :
  checkClientToken secretKey projectKey user timestamp info
    (generateClientToken secretKey projectKey user timestamp info) = true
  /\ checkApiSign secretKey projectKey encodedData
       (generateApiSign secretKey projectKey encodedData) = true
  /\ checkChannelSign secretKey client channel channelData
       (generateChannelSign secretKey client channel channelData) = true.
Proof.
  unfold checkClientToken, checkApiSign, checkChannelSign.
  repeat split; apply String.eqb_refl.
Qed.

(** C2: each check function returns true exactly when the candidate is
    equal to the freshly generated signature, and false exactly when it
    is not; being total functions to [bool], they give one of the two
    for every input. *)
Theorem check_iff_equal
  (secretKey projectKey user timestamp info : string)
  (encodedData client channel channelData candidate : string) :
  (checkClientToken secretKey projectKey user timestamp info candidate = true
   <-> candidate
       = generateClientToken secretKey projectKey user timestamp info)
  /\ (checkClientToken secretKey projectKey user timestamp info candidate
      = false
      <-> candidate
          <> generateClientToken secretKey projectKey user timestamp info)
  /\ (checkApiSign secretKey projectKey encodedData candidate = true
      <-> candidate = generateApiSign secretKey projectKey encodedData)
  /\ (checkApiSign secretKey projectKey encodedData candidate = false
      <-> candidate <> generateApiSign secretKey projectKey encodedData)
  /\ (checkChannelSign secretKey client channel channelData candidate = true
      <-> candidate
          = generateChannelSign secretKey client channel channelData)
  /\ (checkChannelSign secretKey client channel channelData candidate = false
      <-> candidate
          <> generateChannelSign secretKey client channel channelData).
Proof.
  unfold checkClientToken, checkApiSign, checkChannelSign.
  repeat split; intros H.
  all: try (apply String.eqb_eq in H; congruence).
  all: try (apply String.eqb_neq in H; congruence).
  all: try (apply String.eqb_eq; congruence).
  all: try (apply String.eqb_neq; congruence).
Qed.

(** C5: a connection token generated with the empty info is the token
    generated with the info ["{}"]. *)
Theorem generateClientToken_empty_info
  (secretKey projectKey user timestamp : string) :
  generateClientToken secretKey projectKey user timestamp ""
  = generateClientToken secretKey projectKey user timestamp "{}".
Proof.
  unfold generateClientToken.
  change (String.eqb "" "") with true.
  change (String.eqb "{}" "") with false.
  cbv iota.
  reflexivity.
Qed.

(** C7: each generate function returns 64 characters, twice the size of
    the digest, all of them among 0-9 and a-f. *)
Theorem generate_lower_hex_64
  (secretKey projectKey user timestamp info : string)
  (encodedData client channel channelData : string) :
  let token :=
    generateClientToken secretKey projectKey user timestamp info in
  let apiSign := generateApiSign secretKey projectKey encodedData in
  let channelSign :=
    generateChannelSign secretKey client channel channelData in
  (2 * sha256.Size = 64)%nat
  /\ (String.length token = 64%nat
      /\ forallb is_lower_hex (list_ascii_of_string token) = true)
  /\ (String.length apiSign = 64%nat
      /\ forallb is_lower_hex (list_ascii_of_string apiSign) = true)
  /\ (String.length channelSign = 64%nat
      /\ forallb is_lower_hex (list_ascii_of_string channelSign) = true).
Proof.
  cbv zeta.
  rewrite generateClientToken_signs, generateApiSign_signs,
    generateChannelSign_signs.
  split; [reflexivity|].
  repeat split; apply sign_of_shape.
Qed.

(** C9: checking a connection token with the empty info gives what
    checking it with the info ["{}"] gives; a token generated with
    ["{}"] is accepted with the empty info. *)
Theorem checkClientToken_empty_info
  (secretKey projectKey user timestamp candidate : string) :
  checkClientToken secretKey projectKey user timestamp "" candidate
  = checkClientToken secretKey projectKey user timestamp "{}" candidate
  /\ checkClientToken secretKey projectKey user timestamp ""
       (generateClientToken secretKey projectKey user timestamp "{}") = true.
Proof.
  unfold checkClientToken, generateClientToken.
  change (String.eqb "" "") with true.
  change (String.eqb "{}" "") with false.
  cbv iota.
  split; [reflexivity|apply String.eqb_refl].
Qed.

(** ** Field boundaries *)

Lemma length_bytes_of_string (s : string) :
  List.length (bytes_of_string s) = String.length s.
Proof.
  unfold bytes_of_string.
  induction s as [|c s IH];
    cbn [list_ascii_of_string List.length String.length]; congruence.
Qed.

Lemma bytes_of_string_inj (s t : string) :
  bytes_of_string s = bytes_of_string t -> s = t.
Proof.
  unfold bytes_of_string. intros E.
  rewrite <- (string_of_list_ascii_of_string s),
    <- (string_of_list_ascii_of_string t).
  now rewrite E.
Qed.

(** Two concatenations whose first parts have one length are equal part
    by part. *)
Lemma app_eq_aligned {A : Type} (p p' q q' : list A) :
  List.length p = List.length p' -> p ++ q = p' ++ q' -> p = p' /\ q = q'.
Proof.
  revert p'. induction p as [|a p IH]; intros [|a' p'] L E;
    try discriminate L.
  - now split.
  - cbn [app] in E. injection E as -> E. injection L as L.
    destruct (IH p' L E) as [-> ->]. now split.
Qed.

Lemma field_eq_aligned (s s' : string) (q q' : bytes) :
  String.length s = String.length s' ->
  bytes_of_string s ++ q = bytes_of_string s' ++ q' ->
  s = s' /\ q = q'.
Proof.
  intros L E. apply app_eq_aligned in E.
  - destruct E as [E ->]. split; [now apply bytes_of_string_inj|reflexivity].
  - now rewrite !length_bytes_of_string.
Qed.

(** With one length, two infos that are read the same are the same. *)
Lemma info_default_inj (info info' : string) :
  String.length info = String.length info' ->
  (if String.eqb info "" then "{}"%string else info)
  = (if String.eqb info' "" then "{}"%string else info') ->
  info = info'.
Proof.
  destruct info as [|c s], info' as [|c' s']; cbn [String.length String.eqb];
    intros L E; try discriminate L; [reflexivity|exact E].
Qed.

(** C6, as amended: each generate function signs the plain
    concatenation of its fields (the empty info read as ["{}"]), so two
    tuples of fields that differ in at least one field are handed to
    the keyed hash as different byte streams whenever their
    corresponding fields have the same lengths. *)
Theorem aligned_fields_distinct_streams
  (secretKey a b c d a' b' c' d' : string) :
  String.length a = String.length a' ->
  String.length b = String.length b' ->
  String.length c = String.length c' ->
  String.length d = String.length d' ->
  (generateClientToken secretKey a b c d
   = sign_of secretKey (clientToken_stream a b c d)
   /\ ((a, b, c, d) <> (a', b', c', d') ->
       clientToken_stream a b c d <> clientToken_stream a' b' c' d'))
  /\ (generateApiSign secretKey a b = sign_of secretKey (apiSign_stream a b)
      /\ ((a, b) <> (a', b') -> apiSign_stream a b <> apiSign_stream a' b'))
  /\ (generateChannelSign secretKey a b c
      = sign_of secretKey (channelSign_stream a b c)
      /\ ((a, b, c) <> (a', b', c') ->
          channelSign_stream a b c <> channelSign_stream a' b' c')).
Proof.
  intros La Lb Lc Ld.
  split; [|split]; (split; [|intros N E; apply N; clear N]).
  - apply generateClientToken_signs.
  - unfold clientToken_stream in E.
    apply field_eq_aligned in E as [-> E]; [|exact La].
    apply field_eq_aligned in E as [-> E]; [|exact Lb].
    apply field_eq_aligned in E as [-> E]; [|exact Lc].
    apply bytes_of_string_inj, info_default_inj in E; [|exact Ld].
    now subst.
  - apply generateApiSign_signs.
  - unfold apiSign_stream in E.
    apply field_eq_aligned in E as [-> E]; [|exact La].
    apply bytes_of_string_inj in E. now subst.
  - apply generateChannelSign_signs.
  - unfold channelSign_stream in E.
    apply field_eq_aligned in E as [-> E]; [|exact La].
    apply field_eq_aligned in E as [-> E]; [|exact Lb].
    apply bytes_of_string_inj in E. now subst.
Qed.

Lemma aligned_fields_distinct_streams_witness :
  channelSign_stream "42" "$news" "{}" <> channelSign_stream "42" "$chat" "{}".
Proof.
  refine (proj2 (proj2 (proj2
    (aligned_fields_distinct_streams
       "secret" "42" "$news" "{}" "" "42" "$chat" "{}" ""
       eq_refl eq_refl eq_refl eq_refl))) _).
  intros E. discriminate E.
Defined.

(** C6, as stated, fails: moving a field boundary gives another tuple
    of fields with the same byte stream and the same signature, and so
    does writing out the default info. *)
Lemma shifted_boundary_same_stream :
  ("ab", "c", "")%string <> ("a", "bc", "")%string
  /\ channelSign_stream "ab" "c" "" = channelSign_stream "a" "bc" ""
  /\ generateChannelSign "secret" "ab" "c" ""
     = generateChannelSign "secret" "a" "bc" ""
  /\ ("p", "u", "1", "")%string <> ("p", "u", "1", "{}")%string
  /\ clientToken_stream "p" "u" "1" "" = clientToken_stream "p" "u" "1" "{}"
  /\ generateClientToken "secret" "p" "u" "1" ""
     = generateClientToken "secret" "p" "u" "1" "{}".
Proof.
  split; [intros E; discriminate E|].
  split; [reflexivity|].
  split; [rewrite !generateChannelSign_signs; f_equal|].
  split; [intros E; discriminate E|].
  split; [reflexivity|].
  rewrite !generateClientToken_signs; f_equal.
Qed.

(** ** Regular expressions *)

Module regexp_facts.

Import regexp.

Lemma nullable_lang (r : Regexp) : nullable r = true <-> lang r [].
Proof.
  induction r as [| |ranges|r1 IH1 r2 IH2|r1 IH1 r2 IH2|r IH];
    cbn [nullable]; split; intros H.
  - discriminate H.
  - inversion H.
  - constructor.
  - reflexivity.
  - discriminate H.
  - inversion H.
  - apply andb_true_iff in H as [H1 H2].
    change (@nil ascii) with (@nil ascii ++ []).
    constructor; [now apply IH1|now apply IH2].
  - inversion H as [| |? ? s1 s2 H1 H2| | | |]; subst.
    match goal with E : _ ++ _ = [] |- _ =>
      apply app_eq_nil in E as [-> ->] end.
    apply andb_true_iff. split; [now apply IH1|now apply IH2].
  - apply orb_true_iff in H as [H|H].
    + apply lang_Alternate_l. now apply IH1.
    + apply lang_Alternate_r. now apply IH2.
  - apply orb_true_iff.
    inversion H; subst; [left; now apply IH1|right; now apply IH2].
  - constructor.
  - reflexivity.
Qed.

(** A non-empty word of a repetition starts with a non-empty word of
    the repeated expression. *)
Lemma lang_Star_cons (r : Regexp) (c : ascii) (s : list ascii) :
  lang (Star r) (c :: s) ->
  exists s1 s2, s = s1 ++ s2 /\ lang r (c :: s1) /\ lang (Star r) s2.
Proof.
  intros H.
  remember (Star r) as r' eqn:Er. remember (c :: s) as w eqn:Ew.
  revert Er Ew.
  induction H as [| | | | | |r0 s1 s2 H1 _ H2 IH2]; intros Er Ew;
    try discriminate Er; try discriminate Ew.
  injection Er as ->.
  destruct s1 as [|c1 s1].
  - apply IH2; [reflexivity|exact Ew].
  - cbn [app] in Ew. injection Ew as -> <-.
    exists s1, s2. now repeat split.
Qed.

Lemma deriv_lang (r : Regexp) :
  forall (c : ascii) (s : list ascii),
    lang (deriv r c) s <-> lang r (c :: s).
Proof.
  induction r as [| |ranges|r1 IH1 r2 IH2|r1 IH1 r2 IH2|r IH];
    intros c s; cbn [deriv].
  - split; intros H; inversion H.
  - split; intros H; inversion H.
  - destruct (in_class ranges c) eqn:Ec; split; intros H.
    + inversion H; subst. now constructor.
    + inversion H; subst. constructor.
    + inversion H.
    + inversion H; subst. congruence.
  - assert (left_part :
              forall t, lang (Concat (deriv r1 c) r2) t ->
                        lang (Concat r1 r2) (c :: t)).
    { intros t H. inversion H as [| |? ? s1 s2 H1 H2| | | |]; subst.
      change (c :: s1 ++ s2) with ((c :: s1) ++ s2).
      constructor; [now apply IH1|exact H2]. }
    assert (split_word :
              lang (Concat r1 r2) (c :: s) ->
              lang (Concat (deriv r1 c) r2) s
              \/ (lang r1 [] /\ lang (deriv r2 c) s)).
    { intros H. remember (c :: s) as w eqn:E.
      inversion H as [| |? ? s1 s2 H1 H2| | | |]; subst.
      match goal with E : _ ++ _ = _ :: _ |- _ => rename E into Ew end.
      destruct s1 as [|c1 s1]; cbn [app] in Ew.
      - right. subst s2. split; [exact H1|now apply IH2].
      - injection Ew as -> <-. left.
        constructor; [now apply IH1|exact H2]. }
    destruct (nullable r1) eqn:N; split; intros H.
    + inversion H; subst; [now apply left_part|].
      change (c :: s) with ([] ++ c :: s).
      constructor; [now apply nullable_lang|now apply IH2].
    + destruct (split_word H) as [H'|[_ H']];
        [now apply lang_Alternate_l|now apply lang_Alternate_r].
    + now apply left_part.
    + destruct (split_word H) as [H'|[H' _]]; [exact H'|].
      apply nullable_lang in H'. congruence.
  - split; intros H; inversion H; subst.
    + apply lang_Alternate_l. now apply IH1.
    + apply lang_Alternate_r. now apply IH2.
    + apply lang_Alternate_l. now apply IH1.
    + apply lang_Alternate_r. now apply IH2.
  - split; intros H.
    + inversion H as [| |? ? s1 s2 H1 H2| | | |]; subst.
      change (c :: s1 ++ s2) with ((c :: s1) ++ s2).
      constructor; [now apply IH|exact H2].
    + apply lang_Star_cons in H as (s1 & s2 & -> & H1 & H2).
      constructor; [now apply IH|exact H2].
Qed.

(** Matching by derivatives decides the words of an expression. *)
Lemma full_match_lang (s : list ascii) :
  forall r : Regexp, full_match r s = true <-> lang r s.
Proof.
  unfold full_match.
  induction s as [|c s IH]; intros r; cbn [fold_left].
  - apply nullable_lang.
  - rewrite IH. apply deriv_lang.
Qed.

Lemma lang_Star_class (ranges : list (ascii * ascii)) (s : list ascii) :
  lang (Star (CharClass ranges)) s <-> forallb (in_class ranges) s = true.
Proof.
  split.
  - intros H. remember (Star (CharClass ranges)) as r eqn:Er.
    induction H as [| | | | | |r0 s1 s2 H1 _ H2 IH2];
      try discriminate Er; [reflexivity|].
    injection Er as ->. inversion H1; subst.
    cbn [app forallb]. apply andb_true_iff. split; [assumption|].
    now apply IH2.
  - induction s as [|c s IH]; cbn [forallb]; intros H.
    + constructor.
    + apply andb_true_iff in H as [Hc Hs].
      change (c :: s) with ([c] ++ s).
      constructor; [now constructor|now apply IH].
Qed.

Lemma lang_Repeat_class (ranges : list (ascii * ascii)) (n : nat) :
  forall s : list ascii,
    lang (Repeat n (CharClass ranges)) s
    <-> (n <= List.length s)%nat /\ forallb (in_class ranges) s = true.
Proof.
  induction n as [|n IH]; intros s; cbn [Repeat].
  - rewrite lang_Star_class. split; [intros H; split; [lia|exact H]|tauto].
  - split.
    + intros H. inversion H as [| |? ? s1 s2 H1 H2| | | |]; subst.
      inversion H1; subst. apply IH in H2 as [L F].
      cbn [app List.length forallb]. split; [lia|].
      apply andb_true_iff. now split.
    + intros [L F]. destruct s as [|c s]; cbn [List.length] in L; [lia|].
      cbn [forallb] in F. apply andb_true_iff in F as [Fc Fs].
      change (c :: s) with ([c] ++ s).
      constructor; [now constructor|]. apply IH. split; [lia|exact Fs].
Qed.

(** A pattern with both anchors matches a text when its body matches
    the whole of it. *)
Lemma lang_search_anchored (p : Pattern) (s : list ascii) :
  begin_text p = true -> end_text p = true ->
  (lang (search p) s <-> lang (body p) s).
Proof.
  unfold search. intros -> ->. split; intros H.
  - inversion H as [| |? ? s1 s2 H1 H2| | | |]; subst.
    inversion H1; subst.
    inversion H2 as [| |? ? s3 s4 H3 H4| | | |]; subst.
    inversion H4; subst. cbn [app]. now rewrite app_nil_r.
  - change s with ([] ++ s). constructor; [constructor|].
    rewrite <- (app_nil_r s). constructor; [exact H|constructor].
Qed.

(** [^C{n,}$] for a class [C]: at least [n] bytes, all of them in
    the class. *)
Lemma MatchString_anchored_class
  (ranges : list (ascii * ascii)) (n : nat) (s : string) :
  MatchString
    {| begin_text := true;
       body := Repeat n (CharClass ranges);
       end_text := true |} s
  = ((n <=? String.length s)%nat
     && forallb (in_class ranges) (list_ascii_of_string s), None).
Proof.
  unfold MatchString. f_equal.
  apply Bool.eq_iff_eq_true.
  rewrite full_match_lang, lang_search_anchored by reflexivity.
  cbn [body]. rewrite lang_Repeat_class, andb_true_iff, Nat.leb_le.
  replace (List.length (list_ascii_of_string s)) with (String.length s);
    [reflexivity|].
  induction s as [|c s IH];
    cbn [list_ascii_of_string List.length String.length]; congruence.
Qed.

End regexp_facts.

(** ** Namespaces *)

(** The pattern of the code and the pattern of the design document
    list the same bytes, in another order. *)
Lemma pattern_NamespaceName (name : string) :
  regexp.MatchString pattern name = (NamespaceName_ok name, None).
Proof.
  unfold NamespaceName_ok, pattern, NamespaceName_pattern.
  rewrite !regexp_facts.MatchString_anchored_class. cbn [fst].
  do 2 f_equal.
  induction (list_ascii_of_string name) as [|ch l IH]; [reflexivity|].
  cbn [forallb]. rewrite IH. f_equal.
  destruct ch as [[] [] [] [] [] [] [] []]; reflexivity.
Qed.

(** A name matches when it has at least two bytes, each of them a
    letter, a digit, [_] or [-]. *)
Lemma NamespaceName_ok_bytes (name : string) :
  NamespaceName_ok name = true
  <-> (2 <= String.length name)%nat
      /\ Forall (fun ch => is_name_byte ch = true) (list_ascii_of_string name).
Proof.
  unfold NamespaceName_ok, NamespaceName_pattern.
  rewrite regexp_facts.MatchString_anchored_class. cbn [fst].
  rewrite andb_true_iff, Nat.leb_le, forallb_forall, Forall_forall.
  split; intros [L F]; (split; [exact L|]); intros ch H; specialize (F ch H);
    revert F; clear; destruct ch as [[] [] [] [] [] [] [] []];
    intros F; solve [exact F | discriminate F | reflexivity].
Qed.

(** A name that matches has at least two bytes. *)
Lemma NamespaceName_ok_length (name : string) :
  NamespaceName_ok name = true -> (2 <= String.length name)%nat.
Proof. intros H. now apply NamespaceName_ok_bytes in H. Qed.

Lemma stringInSlice_In (a : string) (list : list string) :
  stringInSlice a list = true <-> In a list.
Proof.
  induction list as [|b list IH]; cbn [stringInSlice In].
  - split; [discriminate|tauto].
  - destruct (String.eqb_spec b a) as [->|N].
    + split; [now left|reflexivity].
    + rewrite IH. split; [now right|intros [E|H]; [congruence|exact H]].
Qed.

Section NodeFacts.

Context {O : Type}.
Variable zero : O.

Implicit Types (c : Config O) (n : Namespace O).
Implicit Types (namespaces pre post : list (Namespace O)).

(** What the loop of [Validate] returns on the namespaces that are
    left, when the names in [nss] have been seen: nothing, all names
    left being well formed, distinct and new; or the error of the
    first namespace whose name is ill formed, or is well formed and
    was seen before. *)
Lemma Validate_loop_first namespaces :
  forall nss : list string,
    (Validate_loop namespaces nss = None
     /\ Forall (fun name => NamespaceName_ok name = true) (names namespaces)
     /\ NoDup (names namespaces)
     /\ (forall name, In name (names namespaces) -> ~ In name nss))
    \/ (exists pre n post,
           namespaces = pre ++ n :: post
           /\ Forall (fun name => NamespaceName_ok name = true) (names pre)
           /\ NoDup (names pre)
           /\ (forall name, In name (names pre) -> ~ In name nss)
           /\ ((NamespaceName_ok (Namespace_Name n) = false
                /\ Validate_loop namespaces nss
                   = errors.New (errPrefix ++ "wrong namespace name – "
                                   ++ Namespace_Name n))
               \/ (NamespaceName_ok (Namespace_Name n) = true
                   /\ In (Namespace_Name n) (nss ++ names pre)
                   /\ Validate_loop namespaces nss
                      = errors.New
                          (errPrefix ++ "namespace name must be unique")))).
Proof.
  induction namespaces as [|n namespaces IH]; intros nss.
  - left. cbn. repeat split; [constructor|constructor|tauto].
  - cbn [Validate_loop]. rewrite pattern_NamespaceName.
    destruct (NamespaceName_ok (Namespace_Name n)) eqn:Hok; cbn [negb].
    2:{ right. exists [], n, namespaces. cbn.
        repeat split; [constructor|constructor|tauto|]. left. now split. }
    destruct (stringInSlice (Namespace_Name n) nss) eqn:Hin.
    { right. exists [], n, namespaces. cbn.
      repeat split; [constructor|constructor|tauto|]. right.
      rewrite app_nil_r. apply stringInSlice_In in Hin. now repeat split. }
    assert (Hnew : ~ In (Namespace_Name n) nss).
    { intros H. apply stringInSlice_In in H. congruence. }
    destruct (IH (nss ++ [Namespace_Name n]))
      as [(E & Fok & ND & New)|(pre & n' & post & -> & Fok & ND & New & R)].
    + left. cbn [names map]. repeat split.
      * exact E.
      * now constructor.
      * constructor; [|exact ND].
        intros H. apply (New _ H), in_or_app. right. now left.
      * intros name [<-|H]; [exact Hnew|].
        intros H'. apply (New _ H), in_or_app. now left.
    + right. exists (n :: pre), n', post. cbn [names map app].
      repeat split.
      * now constructor.
      * constructor; [|exact ND].
        intros H. apply (New _ H), in_or_app. right. now left.
      * intros name [<-|H]; [exact Hnew|].
        intros H'. apply (New _ H), in_or_app. now left.
      * destruct R as [[Bad E]|(Good & Seen & E)]; [left; now split|].
        right. repeat split; [exact Good| |exact E].
        rewrite <- app_assoc in Seen. exact Seen.
Qed.

(** The search of [channelOpts] returns the options of the first
    namespace with the name, and nothing when there is none. *)
Lemma channelOpts_loop_first pre n post (name : string) :
  Namespace_Name n = name -> ~ In name (names pre) ->
  channelOpts_loop zero (pre ++ n :: post) name
  = (Namespace_Options n, true).
Proof.
  intros En.
  induction pre as [|m pre IH]; cbn [app channelOpts_loop names map In].
  - intros _. now rewrite En, String.eqb_refl.
  - intros N. destruct (String.eqb_spec (Namespace_Name m) name) as [E|_].
    + exfalso. apply N. now left.
    + apply IH. intros H. apply N. now right.
Qed.

Lemma channelOpts_loop_none namespaces (name : string) :
  ~ In name (names namespaces) ->
  channelOpts_loop zero namespaces name = (zero, false).
Proof.
  induction namespaces as [|m namespaces IH];
    cbn [channelOpts_loop names map In]; [reflexivity|].
  intros N. destruct (String.eqb_spec (Namespace_Name m) name) as [E|_].
  - exfalso. apply N. now left.
  - apply IH. intros H. apply N. now right.
Qed.

(** A list of namespaces has no namespace with the name, or splits
    at the first one. *)
Lemma first_named namespaces (name : string) :
  ~ In name (names namespaces)
  \/ exists pre n post,
       namespaces = pre ++ n :: post
       /\ Namespace_Name n = name /\ ~ In name (names pre).
Proof.
  induction namespaces as [|m namespaces IH]; [left; intros []|].
  destruct (String.eqb_spec (Namespace_Name m) name) as [E|N].
  - right. exists [], m, namespaces. repeat split; [exact E|intros []].
  - destruct IH as [H|(pre & n & post & -> & En & H)].
    + left. cbn [names map In]. intros [E|H']; [congruence|now apply H].
    + right. exists (m :: pre), n, post. repeat split; [exact En|].
      cbn [names map In]. intros [E|H']; [congruence|now apply H].
Qed.

(** An accepted configuration declares well-formed, distinct names. *)
Lemma Validate_nil_names c :
  Validate c = None ->
  Forall (fun name => NamespaceName_ok name = true) (names (Namespaces c))
  /\ NoDup (names (Namespaces c)).
Proof.
  unfold Validate. intros V.
  destruct (Validate_loop_first (Namespaces c) [])
    as [(_ & Fok & ND & _)|(pre & n & post & _ & _ & _ & _ & R)].
  - now split.
  - destruct R as [[_ E]|(_ & _ & E)]; unfold errors.New in E; congruence.
Qed.

(** C3: [Validate] returns nil exactly when every declared name
    matches [^[A-Za-z0-9_-]{2,}$] and no name is repeated.  Otherwise
    the namespaces split at the first violation: the names before it
    are well formed and distinct, and the error is the configuration
    error that ends with the name, when the name is ill formed, or
    the one that asks for unique names, when the name is well formed
    and stands before already. *)
Theorem Validate_first_violation c :
  (Validate c = None
   <-> Forall (fun name => NamespaceName_ok name = true)
         (names (Namespaces c))
       /\ NoDup (names (Namespaces c)))
  /\ (Validate c = None
      \/ exists pre n post,
           Namespaces c = pre ++ n :: post
           /\ Forall (fun name => NamespaceName_ok name = true) (names pre)
           /\ NoDup (names pre)
           /\ ((NamespaceName_ok (Namespace_Name n) = false
                /\ Validate c
                   = errors.New (errPrefix ++ "wrong namespace name – "
                                   ++ Namespace_Name n))
               \/ (NamespaceName_ok (Namespace_Name n) = true
                   /\ In (Namespace_Name n) (names pre)
                   /\ Validate c
                      = errors.New
                          (errPrefix ++ "namespace name must be unique")))).
Proof.
  unfold Validate.
  destruct (Validate_loop_first (Namespaces c) [])
    as [(E & Fok & ND & _)|(pre & n & post & Ens & Fok & ND & _ & R)].
  - split; [|now left]. split; [now split|intros _; exact E].
  - cbn [app] in R. split.
    + split.
      * intros E.
        destruct R as [[_ E']|(_ & _ & E')]; unfold errors.New in E';
          congruence.
      * intros [Fall NDall]. exfalso. rewrite Ens in Fall, NDall.
        unfold names in Fall, NDall. rewrite map_app in Fall, NDall.
        cbn [map] in Fall, NDall.
        destruct R as [[Bad _]|(_ & Seen & _)].
        -- apply Forall_app in Fall as [_ Fall].
           apply Forall_inv in Fall. congruence.
        -- apply NoDup_remove_2 in NDall. apply NDall, in_or_app.
           now left.
    + right. exists pre, n, post. repeat split; assumption.
Qed.

(** C4: the empty name resolves to the options of the configuration
    itself, found, whatever the namespaces are.  Another name
    resolves to the options of the first namespace that has exactly
    this name, found, or to the zero value, not found, when no
    namespace has it. *)
Theorem channelOpts_resolves c (name : string) :
  channelOpts zero c "" = (Options c, true)
  /\ (name <> ""%string ->
      (exists pre n post,
          Namespaces c = pre ++ n :: post
          /\ Namespace_Name n = name
          /\ ~ In name (names pre)
          /\ channelOpts zero c name = (Namespace_Options n, true))
      \/ (~ In name (names (Namespaces c))
          /\ channelOpts zero c name = (zero, false))).
Proof.
  split; [reflexivity|]. intros Hname.
  unfold channelOpts. destruct (String.eqb_spec name "") as [E|_];
    [congruence|].
  destruct (first_named (Namespaces c) name)
    as [N|(pre & n & post & Ens & En & N)].
  - right. split; [exact N|now apply channelOpts_loop_none].
  - left. exists pre, n, post. rewrite Ens.
    repeat split; [exact En|exact N|now apply channelOpts_loop_first].
Qed.

(** C8: in a configuration that [Validate] accepts, every declared
    name has at least two bytes, so none is the empty name; the
    empty name resolves to the options of the configuration itself. *)
Theorem Validate_no_empty_name c :
  Validate c = None ->
  Forall (fun name => (2 <= String.length name)%nat) (names (Namespaces c))
  /\ ~ In ""%string (names (Namespaces c))
  /\ channelOpts zero c "" = (Options c, true).
Proof.
  intros V. apply Validate_nil_names in V as [Fok _].
  assert (L : Forall (fun name => (2 <= String.length name)%nat)
                (names (Namespaces c))).
  { eapply Forall_impl; [|exact Fok].
    intros name. apply NamespaceName_ok_length. }
  split; [exact L|]. split; [|reflexivity].
  intros H. rewrite Forall_forall in L. apply L in H.
  cbn [String.length] in H. lia.
Qed.


End NodeFacts.

Lemma Validate_no_empty_name_witness :
  Validate (config_of [namespace "ok-1" 1; namespace "ok_2" 2]) = None
  /\ ~ In ""%string
       (names
          (Namespaces (config_of [namespace "ok-1" 1; namespace "ok_2" 2]))).
Proof.
  split; [reflexivity|].
  refine (proj1 (proj2
    (Validate_no_empty_name 0%nat
       (config_of [namespace "ok-1" 1; namespace "ok_2" 2]) eq_refl))).
Defined.



(** ** The cases that the design document lists *)

Example Validate_two_names :
  Validate (config_of [namespace "ok-1" 1; namespace "ok_2" 2]) = None.
Proof. reflexivity. Qed.

Example Validate_short_name :
  Validate (config_of [namespace "a" 1])
  = Some "config error: wrong namespace name – a"%string.
Proof. reflexivity. Qed.

Example Validate_repeated_name :
  Validate (config_of [namespace "dup" 1; namespace "dup" 2])
  = Some "config error: namespace name must be unique"%string.
Proof. reflexivity. Qed.

(** The first violation decides: the ill-formed third name is reported,
    not the repetition after it. *)
Example Validate_first_of_two :
  Validate (config_of [namespace "news" 1; namespace "chat" 2;
                       namespace "a b" 3; namespace "news" 4])
  = Some "config error: wrong namespace name – a b"%string.
Proof. reflexivity. Qed.

(** [$] is the end of the text, and not the end of a line. *)
Example Validate_trailing_newline :
  Validate (config_of [namespace (String "n" (String "s" (String "010" ""))) 1])
  <> None.
Proof. intros E. discriminate E. Qed.

Example channelOpts_empty :
  channelOpts 0%nat (config_of [namespace "news" 1]) "" = (7%nat, true).
Proof. reflexivity. Qed.

Example channelOpts_missing :
  channelOpts 0%nat (config_of [namespace "news" 1]) "missing"
  = (0%nat, false).
Proof. reflexivity. Qed.

Example channelOpts_news :
  channelOpts 0%nat (config_of [namespace "news" 1]) "news" = (1%nat, true).
Proof. reflexivity. Qed.

Example channelOpts_case_sensitive :
  channelOpts 0%nat (config_of [namespace "news" 1]) "News" = (0%nat, false).
Proof. reflexivity. Qed.

Example generateClientToken_example :
  generateClientToken "secret" "project1" "user1" "1430669930" ""
  = "3f4866f351cf77b0c8292b0e4a01ae0a21205c642bb129e42f337d3d2a152f41"%string.
Proof. vm_compute. reflexivity. Qed.

(** * Further properties of the code *)

(** ** What the signatures depend on *)

Lemma bytes_of_string_app (s t : string) :
  bytes_of_string (s ++ t) = bytes_of_string s ++ bytes_of_string t.
Proof.
  unfold bytes_of_string.
  induction s as [|c s IH]; cbn [append list_ascii_of_string app];
    [reflexivity|now rewrite IH].
Qed.

Lemma bytes_of_string_of_bytes (b : bytes) :
  bytes_of_string (string_of_bytes b) = b.
Proof. apply list_ascii_of_string_of_list_ascii. Qed.

(** X1: bytes can move from the end of a field to the start of the
    next one without any change of the signature. *)
Theorem field_boundary_moves (secretKey a b c d x : string) :
  generateApiSign secretKey (a ++ x) b = generateApiSign secretKey a (x ++ b)
  /\ generateChannelSign secretKey (a ++ x) b c
     = generateChannelSign secretKey a (x ++ b) c
  /\ generateChannelSign secretKey a (b ++ x) c
     = generateChannelSign secretKey a b (x ++ c)
  /\ generateClientToken secretKey (a ++ x) b c d
     = generateClientToken secretKey a (x ++ b) c d
  /\ generateClientToken secretKey a (b ++ x) c d
     = generateClientToken secretKey a b (x ++ c) d.
Proof.
  rewrite !generateApiSign_signs, !generateChannelSign_signs,
    !generateClientToken_signs.
  unfold apiSign_stream, channelSign_stream, clientToken_stream.
  rewrite !bytes_of_string_app, <- !app_assoc.
  repeat split; reflexivity.
Qed.

(** X2: the three kinds of signature are not kept apart.  A channel
    sign is the API sign of the client as project key and of the
    channel followed by the channel data; a connection token is the
    channel sign of the project key as client, the user as channel,
    and the timestamp followed by the info that is signed.  So each
    check accepts what the other generate function returns. *)
Theorem signs_cross_domains (secretKey a b c info : string) :
  let signed_info := if String.eqb info "" then "{}"%string else info in
  generateChannelSign secretKey a b c = generateApiSign secretKey a (b ++ c)
  /\ checkApiSign secretKey a (b ++ c)
       (generateChannelSign secretKey a b c) = true
  /\ generateClientToken secretKey a b c info
     = generateChannelSign secretKey a b (c ++ signed_info)
  /\ checkChannelSign secretKey a b (c ++ signed_info)
       (generateClientToken secretKey a b c info) = true.
Proof.
  cbv zeta.
  assert (E1 : generateChannelSign secretKey a b c
               = generateApiSign secretKey a (b ++ c)).
  { rewrite generateApiSign_signs, generateChannelSign_signs.
    unfold apiSign_stream, channelSign_stream.
    rewrite (bytes_of_string_app b). reflexivity. }
  assert (E2 : generateClientToken secretKey a b c info
               = generateChannelSign secretKey a b
                   (c ++ (if String.eqb info "" then "{}" else info))).
  { rewrite generateClientToken_signs, generateChannelSign_signs.
    unfold clientToken_stream, channelSign_stream.
    rewrite (bytes_of_string_app c). reflexivity. }
  unfold checkApiSign, checkChannelSign.
  rewrite <- E1, <- E2, !String.eqb_refl.
  split; [reflexivity|]. split; [reflexivity|]. split; reflexivity.
Qed.

(** X3: a candidate that has not 64 characters, or has a character that
    is not a lowercase hexadecimal digit, is rejected by every check,
    whatever the secret and the fields. *)
Theorem check_rejects_ill_shaped
  (secretKey projectKey user timestamp info : string)
  (encodedData client channel channelData candidate : string) :
  String.length candidate <> 64%nat
  \/ forallb is_lower_hex (list_ascii_of_string candidate) = false ->
  checkClientToken secretKey projectKey user timestamp info candidate = false
  /\ checkApiSign secretKey projectKey encodedData candidate = false
  /\ checkChannelSign secretKey client channel channelData candidate = false.
Proof.
  intros Bad.
  assert (shape : forall message,
             candidate <> sign_of secretKey message).
  { intros message E. destruct (sign_of_shape secretKey message) as [L F].
    rewrite <- E in L, F. destruct Bad as [N|N].
    - apply N. exact L.
    - congruence. }
  unfold checkClientToken, checkApiSign, checkChannelSign.
  rewrite generateClientToken_signs, generateApiSign_signs,
    generateChannelSign_signs.
  repeat split; apply String.eqb_neq; intros E; symmetry in E;
    exact (shape _ E).
Qed.

Lemma check_rejects_ill_shaped_witness :
  checkClientToken "secret" "project1" "user1" "1430669930" ""
    "3F4866F351CF77B0C8292B0E4A01AE0A21205C642BB129E42F337D3D2A152F41"
  = false.
Proof.
  refine (proj1
    (check_rejects_ill_shaped "secret" "project1" "user1" "1430669930" ""
       "" "" "" ""
       "3F4866F351CF77B0C8292B0E4A01AE0A21205C642BB129E42F337D3D2A152F41"
       (or_intror eq_refl))).
Defined.

(** ** What the secret key counts for *)

Lemma firstn_repeat_le {A : Type} (z : A) (j m : nat) :
  (j <= m)%nat -> firstn j (repeat z m) = repeat z j.
Proof.
  revert m. induction j as [|j IH]; intros [|m] L; cbn [repeat firstn];
    try reflexivity; try lia.
  f_equal. apply IH. lia.
Qed.

(** Copying a key that fits pads it with zeros. *)
Lemma copy_into_zeros_pad (n : nat) (key : bytes) :
  (List.length key <= n)%nat ->
  hmac.copy_into_zeros n key
  = key ++ repeat (byte_of_Z 0) (n - List.length key).
Proof.
  intros L. unfold hmac.copy_into_zeros.
  rewrite firstn_app, firstn_all2 by exact L.
  f_equal. apply firstn_repeat_le. lia.
Qed.

(** Zero bytes after a key that fits make no other key. *)
Lemma hmac_New_zeros (key : bytes) (n : nat) :
  (List.length key + n <= sha256.BlockSize)%nat ->
  hmac.New sha256.New (key ++ repeat (byte_of_Z 0) n)
  = hmac.New sha256.New key.
Proof.
  intros L. unfold hmac.New.
  change (hash.BlockSize sha256.New) with sha256.BlockSize.
  assert (Ln : List.length (key ++ repeat (byte_of_Z 0) n)
               = (List.length key + n)%nat)
    by now rewrite length_app, repeat_length.
  replace (Nat.ltb sha256.BlockSize
             (List.length (key ++ repeat (byte_of_Z 0) n))) with false
    by (symmetry; apply Nat.ltb_ge; lia).
  replace (Nat.ltb sha256.BlockSize (List.length key)) with false
    by (symmetry; apply Nat.ltb_ge; lia).
  rewrite !copy_into_zeros_pad by lia.
  rewrite Ln, <- app_assoc, <- repeat_app.
  replace (n + (sha256.BlockSize - (List.length key + n)))%nat
    with (sha256.BlockSize - List.length key)%nat by lia.
  reflexivity.
Qed.

(** A key of more than a block counts as its digest. *)
Lemma hmac_New_long (key : bytes) :
  (sha256.BlockSize < List.length key)%nat ->
  hmac.New sha256.New (sha256.Sum (sha256.Write sha256.reset key) [])
  = hmac.New sha256.New key.
Proof.
  intros L. unfold hmac.New.
  change (hash.BlockSize sha256.New) with sha256.BlockSize.
  change (hash.Sum sha256.New) with sha256.Sum.
  change (hash.Write sha256.New) with sha256.Write.
  change (hash.init sha256.New) with sha256.reset.
  replace (Nat.ltb sha256.BlockSize (List.length key)) with true
    by (symmetry; apply Nat.ltb_lt; exact L).
  rewrite sha256_facts.length_Sum. reflexivity.
Qed.

(** X4: zero bytes at the end of a secret that, with them, has at most
    64 bytes change no signature: the secret with and the secret
    without them sign alike. *)
Theorem secret_trailing_zeros
  (secretKey projectKey user timestamp info : string)
  (encodedData client channel channelData : string) (n : nat) :
  (String.length secretKey + n <= 64)%nat ->
  let padded :=
    (secretKey ++ string_of_bytes (repeat "000"%char n))%string in
  generateClientToken padded projectKey user timestamp info
  = generateClientToken secretKey projectKey user timestamp info
  /\ generateApiSign padded projectKey encodedData
     = generateApiSign secretKey projectKey encodedData
  /\ generateChannelSign padded client channel channelData
     = generateChannelSign secretKey client channel channelData.
Proof.
  intros L. cbv zeta.
  assert (E : forall message,
             sign_of (secretKey ++ string_of_bytes (repeat "000"%char n))
               message
             = sign_of secretKey message).
  { intros message. unfold sign_of.
    rewrite bytes_of_string_app, bytes_of_string_of_bytes.
    change "000"%char with (byte_of_Z 0).
    rewrite hmac_New_zeros; [reflexivity|].
    rewrite length_bytes_of_string. exact L. }
  rewrite !generateClientToken_signs, !generateApiSign_signs,
    !generateChannelSign_signs, !E.
  split; [reflexivity|]. split; reflexivity.
Qed.

Lemma secret_trailing_zeros_witness :
  generateApiSign ("k" ++ string_of_bytes (repeat "000"%char 1))
    "project1" "{}"
  = generateApiSign "k" "project1" "{}".
Proof.
  refine (proj1 (proj2
    (secret_trailing_zeros "k" "project1" "" "" "" "{}" "" "" "" 1 _))).
  cbn [String.length]. lia.
Defined.

(** X5: a secret of more than 64 bytes signs as the 32 bytes of its
    SHA-256 digest do. *)
Theorem secret_long_as_digest
  (secretKey projectKey user timestamp info : string)
  (encodedData client channel channelData : string) :
  (64 < String.length secretKey)%nat ->
  let digest :=
    string_of_bytes
      (sha256.Sum (sha256.Write sha256.reset (bytes_of_string secretKey)) [])
  in
  String.length digest = 32%nat
  /\ generateClientToken digest projectKey user timestamp info
     = generateClientToken secretKey projectKey user timestamp info
  /\ generateApiSign digest projectKey encodedData
     = generateApiSign secretKey projectKey encodedData
  /\ generateChannelSign digest client channel channelData
     = generateChannelSign secretKey client channel channelData.
Proof.
  intros L. cbv zeta.
  set (sum := sha256.Sum _ _).
  assert (E : forall message,
             sign_of (string_of_bytes sum) message
             = sign_of secretKey message).
  { intros message. unfold sign_of.
    rewrite bytes_of_string_of_bytes. unfold sum.
    rewrite hmac_New_long; [reflexivity|].
    rewrite length_bytes_of_string. exact L. }
  split.
  - rewrite <- length_bytes_of_string, bytes_of_string_of_bytes.
    unfold sum. now rewrite sha256_facts.length_Sum.
  - rewrite !generateClientToken_signs, !generateApiSign_signs,
      !generateChannelSign_signs, !E.
    split; [reflexivity|]. split; reflexivity.
Qed.

Lemma secret_long_as_digest_witness :
  generateApiSign
    (string_of_bytes
       (sha256.Sum
          (sha256.Write sha256.reset
             (bytes_of_string
  "0123456789abcdef0123456789abcdef0123456789abcdef0123456789abcdef0"))
          []))
    "project1" "{}"
  = generateApiSign
      "0123456789abcdef0123456789abcdef0123456789abcdef0123456789abcdef0"
      "project1" "{}".
Proof.
  refine (proj1 (proj2 (proj2
    (secret_long_as_digest
       "0123456789abcdef0123456789abcdef0123456789abcdef0123456789abcdef0"
       "project1" "" "" "" "{}" "" "" "" _)))).
  cbn [String.length]. lia.
Defined.

(** ** Validation and lookup together *)

(** X6: [stringInSlice] tells whether the string is an element of the
    list, by equality of all bytes; over a list in two parts it is the
    disjunction of the answers for the parts. *)
Theorem stringInSlice_membership (a : string) (l1 l2 : list string) :
  (stringInSlice a l1 = true <-> In a l1)
  /\ (stringInSlice a l1 = false <-> ~ In a l1)
  /\ stringInSlice a (l1 ++ l2) = stringInSlice a l1 || stringInSlice a l2.
Proof.
  split; [apply stringInSlice_In|]. split.
  - rewrite <- stringInSlice_In. destruct (stringInSlice a l1); split;
      intros H; congruence.
  - induction l1 as [|b l1 IH]; cbn [app stringInSlice orb];
      [reflexivity|].
    destruct (String.eqb b a); [reflexivity|exact IH].
Qed.

Section NodeMore.

Context {O : Type}.
Variable zero : O.

Implicit Types (c : Config O) (n : Namespace O).
Implicit Types (namespaces pre post more : list (Namespace O)).

(** The loop over a list in two parts: the error of the first part,
    or else what the loop returns on the second part once the names of
    the first have been seen. *)
Lemma Validate_loop_app namespaces more :
  forall nss : list string,
    Validate_loop (namespaces ++ more) nss
    = match Validate_loop namespaces nss with
      | Some e => Some e
      | None => Validate_loop more (nss ++ names namespaces)
      end.
Proof.
  induction namespaces as [|n namespaces IH]; intros nss;
    cbn [app Validate_loop names map].
  - now rewrite app_nil_r.
  - rewrite pattern_NamespaceName.
    destruct (NamespaceName_ok (Namespace_Name n)); cbn [negb];
      [|reflexivity].
    destruct (stringInSlice (Namespace_Name n) nss); [reflexivity|].
    rewrite IH, <- app_assoc. reflexivity.
Qed.

(** Well-formed, distinct names are accepted. *)
Lemma Validate_names_nil c :
  Forall (fun name => NamespaceName_ok name = true) (names (Namespaces c)) ->
  NoDup (names (Namespaces c)) ->
  Validate c = None.
Proof.
  intros Fall NDall. unfold Validate.
  destruct (Validate_loop_first (Namespaces c) [])
    as [(E & _)|(pre & n & post & Ens & _ & _ & _ & R)]; [exact E|].
  exfalso. rewrite Ens in Fall, NDall.
  unfold names in Fall, NDall. rewrite map_app in Fall, NDall.
  cbn [map app] in Fall, NDall, R.
  destruct R as [[Bad _]|(_ & Seen & _)].
  - apply Forall_app in Fall as [_ Fall].
    apply Forall_inv in Fall. congruence.
  - apply NoDup_remove_2 in NDall. apply NDall, in_or_app. now left.
Qed.

(** X7: what [Validate] returns for namespaces followed by more
    namespaces.  An error of the namespaces alone stays the error, so
    namespaces that are accepted with others after them are accepted
    alone. *)
Theorem Validate_prefix_decides c c' more :
  Namespaces c' = Namespaces c ++ more ->
  (forall e : string, Validate c = Some e -> Validate c' = Some e)
  /\ (Validate c' = None -> Validate c = None).
Proof.
  intros Ens. unfold Validate. rewrite Ens, Validate_loop_app.
  destruct (Validate_loop (Namespaces c) []) as [e|].
  - split; [intros e' E; exact E|intros E; discriminate E].
  - split; [intros e' E; discriminate E|reflexivity].
Qed.

(** X8: whether [Validate] accepts does not depend on the order of the
    namespaces. *)
Theorem Validate_accepts_any_order c c' :
  Permutation (Namespaces c) (Namespaces c') ->
  (Validate c = None <-> Validate c' = None).
Proof.
  assert (one_way : forall c1 c2,
             Permutation (Namespaces c1) (Namespaces c2) ->
             Validate c1 = None -> Validate c2 = None).
  { intros c1 c2 P V. apply Validate_nil_names in V as [Fok ND].
    assert (Pn : Permutation (names (Namespaces c1)) (names (Namespaces c2)))
      by now apply Permutation_map.
    apply Validate_names_nil.
    - rewrite Forall_forall in *. intros name H. apply Fok.
      apply (Permutation_in _ (Permutation_sym Pn) H).
    - exact (Permutation_NoDup Pn ND). }
  intros P. split; apply one_way; [exact P|now apply Permutation_sym].
Qed.

(** X9: in a configuration that [Validate] accepts, the name of each
    declared namespace resolves to the options of that very namespace. *)
Theorem validated_namespace_resolves c n :
  Validate c = None ->
  In n (Namespaces c) ->
  channelOpts zero c (Namespace_Name n) = (Namespace_Options n, true).
Proof.
  intros V Hn. apply Validate_nil_names in V as [Fok ND].
  assert (Hname : Namespace_Name n <> ""%string).
  { rewrite Forall_forall in Fok.
    assert (L := NamespaceName_ok_length _
                   (Fok _ (in_map Namespace_Name _ _ Hn))).
    intros E. rewrite E in L. cbn [String.length] in L. lia. }
  apply in_split in Hn as (pre & post & Ens).
  unfold channelOpts.
  destruct (String.eqb_spec (Namespace_Name n) "") as [E|_]; [congruence|].
  rewrite Ens. apply channelOpts_loop_first; [reflexivity|].
  rewrite Ens in ND. unfold names in ND. rewrite map_app in ND.
  cbn [map] in ND. apply NoDup_remove_2 in ND.
  intros H. apply ND, in_or_app. now left.
Qed.

(** Lookup in a list in two parts: the first part answers when it has
    the name, the second part otherwise. *)
Lemma channelOpts_loop_app namespaces more (name : string) :
  channelOpts_loop zero (namespaces ++ more) name
  = if snd (channelOpts_loop zero namespaces name)
    then channelOpts_loop zero namespaces name
    else channelOpts_loop zero more name.
Proof.
  induction namespaces as [|n namespaces IH];
    cbn [app channelOpts_loop snd]; [reflexivity|].
  destruct (String.eqb (Namespace_Name n) name); [reflexivity|exact IH].
Qed.

(** X10: namespaces declared after others never change what a name
    resolves to when the earlier ones have it; a name the earlier ones
    have not resolves as in the later ones alone. *)
Theorem channelOpts_appended c c1 c2 (name : string) :
  Options c = Options c1 ->
  Namespaces c = Namespaces c1 ++ Namespaces c2 ->
  channelOpts zero c name
  = if snd (channelOpts zero c1 name)
    then channelOpts zero c1 name
    else channelOpts zero c2 name.
Proof.
  intros Eo Ens. unfold channelOpts.
  destruct (String.eqb name ""); cbn [snd]; [now rewrite Eo|].
  rewrite Ens. apply channelOpts_loop_app.
Qed.

(** X11: no name of an accepted configuration holds a byte that is not
    a letter, a digit, [_] or [-]; so none holds a byte of the private
    prefix, of the boundaries or of the separator of [DefaultConfig]. *)
Theorem validated_names_avoid_boundaries c (name : string) (ch : ascii) :
  Validate c = None ->
  In name (names (Namespaces c)) ->
  In ch (list_ascii_of_string name) ->
  is_name_byte ch = true
  /\ ~ In ch
       (list_ascii_of_string
          (ChannelPrivatePrefix (DefaultConfig zero)
           ++ ChannelNamespaceBoundary (DefaultConfig zero)
           ++ ChannelUserBoundary (DefaultConfig zero)
           ++ ChannelUserSeparator (DefaultConfig zero)
           ++ ChannelClientBoundary (DefaultConfig zero))).
Proof.
  intros V Hname Hch. apply Validate_nil_names in V as [Fok _].
  rewrite Forall_forall in Fok. specialize (Fok _ Hname).
  apply NamespaceName_ok_bytes in Fok as [_ Fb].
  rewrite Forall_forall in Fb. specialize (Fb _ Hch).
  split; [exact Fb|].
  cbn. intros [E|[E|[E|[E|[E|[]]]]]]; subst ch; discriminate Fb.
Qed.

End NodeMore.

(** X12: [Validate] reads nothing but the names of the namespaces:
    configurations that declare the same names in the same order get
    the same answer, whatever their options and other fields are. *)
Theorem Validate_reads_names {O O' : Type} (c : Config O) (c' : Config O') :
  names (Namespaces c) = names (Namespaces c') -> Validate c = Validate c'.
Proof.
  unfold Validate. generalize (@nil string) as nss.
  generalize (Namespaces c') as l'. generalize (Namespaces c) as l.
  induction l as [|n l IH]; intros [|n' l'] nss E; cbn [names map] in E;
    try discriminate E; [reflexivity|].
  injection E as En El. cbn [Validate_loop]. rewrite En.
  destruct (regexp.MatchString pattern (Namespace_Name n')) as [m e].
  destruct (negb m); [reflexivity|].
  destruct (stringInSlice (Namespace_Name n') nss); [reflexivity|].
  now apply IH.
Qed.

Lemma Validate_prefix_decides_witness :
  Validate (config_of [namespace "dup" 1; namespace "dup" 2;
                       namespace "news" 3])
  = Some "config error: namespace name must be unique"%string.
Proof.
  refine (proj1
    (Validate_prefix_decides
       (config_of [namespace "dup" 1; namespace "dup" 2])
       (config_of [namespace "dup" 1; namespace "dup" 2;
                   namespace "news" 3])
       [namespace "news" 3] eq_refl) _ eq_refl).
Defined.

Lemma Validate_accepts_any_order_witness :
  Validate (config_of [namespace "news" 1; namespace "chat" 2]) = None
  <-> Validate (config_of [namespace "chat" 2; namespace "news" 1]) = None.
Proof.
  exact (Validate_accepts_any_order
           (config_of [namespace "news" 1; namespace "chat" 2])
           (config_of [namespace "chat" 2; namespace "news" 1])
           (perm_swap _ _ _)).
Defined.

Lemma validated_namespace_resolves_witness :
  channelOpts 0%nat (config_of [namespace "news" 1; namespace "chat" 2])
    "chat"
  = (2%nat, true).
Proof.
  exact (validated_namespace_resolves 0%nat
           (config_of [namespace "news" 1; namespace "chat" 2])
           (namespace "chat" 2) eq_refl (or_intror (or_introl eq_refl))).
Defined.

Lemma channelOpts_appended_witness :
  channelOpts 0%nat
    (config_of [namespace "news" 1; namespace "chat" 2; namespace "news" 3])
    "news"
  = (1%nat, true).
Proof.
  exact (channelOpts_appended 0%nat
           (config_of [namespace "news" 1; namespace "chat" 2;
                       namespace "news" 3])
           (config_of [namespace "news" 1])
           (config_of [namespace "chat" 2; namespace "news" 3])
           "news" eq_refl eq_refl).
Defined.

Lemma validated_names_avoid_boundaries_witness :
  is_name_byte "n" = true
  /\ ~ In "n"%char
       (list_ascii_of_string
          (ChannelPrivatePrefix (DefaultConfig 0%nat)
           ++ ChannelNamespaceBoundary (DefaultConfig 0%nat)
           ++ ChannelUserBoundary (DefaultConfig 0%nat)
           ++ ChannelUserSeparator (DefaultConfig 0%nat)
           ++ ChannelClientBoundary (DefaultConfig 0%nat))).
Proof.
  exact (validated_names_avoid_boundaries 0%nat
           (config_of [namespace "news" 1]) "news" "n"
           eq_refl (or_introl eq_refl) (or_introl eq_refl)).
Defined.

Lemma Validate_reads_names_witness :
  Validate (config_of [namespace "news" 1; namespace "a" 2])
  = Validate (config_of [namespace "news" 5; namespace "a" 0]).
Proof.
  exact (Validate_reads_names
           (config_of [namespace "news" 1; namespace "a" 2])
           (config_of [namespace "news" 5; namespace "a" 0]) eq_refl).
Defined.
